(** * The [Option] container of [SFM61319/option], embedded in Rocq

    The TypeScript class [Option<T>] has a single public field
    [value : T | undefined] and decides presence by the test
    [this.value === undefined].  Instances are mutable objects that are
    passed around by reference ([filter], [or], [xor] and [inspect] return
    [this] or their argument), so the embedding keeps an explicit store of
    objects and threads it through every method, together with the
    possibility of a thrown [Error]. *)

From stdpp Require Import gmap strings list.

(** ** Run-time values *)

(** Object references. *)
Abbreviation loc := positive (only parsing).

(** The JavaScript values a slot of type [T | undefined] can hold.  Arrays
    (the tuple built by [zip]) are kept as immutable lists; [JRef] is a
    reference to an object in the store, e.g. a nested [Option]. *)
#[warnings="-register-all"]
Inductive JsValue : Type :=
  | JUndefined
  | JNull
  | JBool (b : bool)
  | JNum (n : Z)
  | JStr (s : string)
  | JArr (elems : list JsValue)
  | JRef (l : loc).

(** [v === undefined] *)
Definition is_undefined (v : JsValue) : bool :=
  match v with
  | JUndefined => true
  | _ => false
  end.

(** [throw new Error(msg)]: the only exception the class ever constructs. *)
Inductive JsError : Type :=
  | Error (msg : string).

(** ** Store, outcomes and the state-and-exception monad *)

(** The store maps a reference to the content of the one mutable slot of the
    object it denotes: the [value] field of an [Option] instance, or the
    content of a captured [let] variable of a callback. *)
Abbreviation heap := (gmap loc JsValue) (only parsing).

Inductive outcome (A : Type) : Type :=
  | Ok (a : A)
  | Throw (e : JsError).
Arguments Ok {A} a.
Arguments Throw {A} e.

(** A computation runs in a store and ends normally or by an exception; the
    store written so far survives an exception, as in JavaScript. *)
Definition M (A : Type) : Type := heap → outcome A * heap.

Definition ret {A} (a : A) : M A := λ h, (Ok a, h).

Definition bind {A B} (m : M A) (k : A → M B) : M B :=
  λ h, match m h with
       | (Ok a, h') => k a h'
       | (Throw e, h') => (Throw e, h')
       end.

Definition throw {A} (e : JsError) : M A := λ h, (Throw e, h).

Declare Scope js_scope.
Delimit Scope js_scope with js.
Notation "x ←' m ;; k" := (bind m (λ x, k))
  (at level 100, m at next level, right associativity) : js_scope.
Notation "m ;;' k" := (bind m (λ _, k))
  (at level 100, right associativity) : js_scope.
Local Open Scope js_scope.

(** The content of the slot of [l]; a reference is always live in
    JavaScript, and a slot that was never written reads as [undefined]. *)
Definition slot (h : gmap loc JsValue) (l : loc) : JsValue :=
  default JUndefined (h !! l).

(** [l.value] *)
Definition read (l : loc) : M JsValue := λ h, (Ok (slot h l), h).

(** [l.value = v] *)
Definition write (l : loc) (v : JsValue) : M unit := λ h, (Ok tt, <[l:=v]> h).

(** Allocation of a new object whose slot holds [v]. *)
Definition alloc (v : JsValue) : M loc :=
  λ h, let l := fresh (dom h) in (Ok l, <[l:=v]> h).

(** ** The class [Option<T>] *)

Module Option.

(** [constructor(value: T | undefined = undefined) { this.value = value; }]
    The argument may be omitted, in which case the default applies. *)
Definition constructor (value : option JsValue) : M loc :=
  alloc (default JUndefined value).

(** [static some<T>(value: T) { return new Option(value); }] *)
Definition some (value : JsValue) : M loc := constructor (Some value).

(** [static none<T>() { return new Option(); }] *)
Definition none : M loc := constructor None.

(** [private _exchange(value)]: copy the slot into a new instance, then
    overwrite the slot. *)
Definition _exchange (this : loc) (value : JsValue) : M loc :=
  old ←' read this ;;
  optb ←' constructor (Some old) ;;
  (write this value ;;'
   ret optb).

(** [isNone() { return this.value === undefined; }] *)
Definition isNone (this : loc) : M bool :=
  v ←' read this ;; ret (is_undefined v).

(** [isSome() { return !this.isNone(); }] *)
Definition isSome (this : loc) : M bool :=
  b ←' isNone this ;; ret (negb b).

(** [isSomeAnd(predicate) { return this.isSome() && predicate(this.value); }] *)
Definition isSomeAnd (this : loc) (predicate : JsValue → M bool) : M bool :=
  b ←' isSome this ;;
  if b then (v ←' read this ;; predicate v) else ret false.

(** [asSlice() { return this.isSome() ? [this.value] : []; }] *)
Definition asSlice (this : loc) : M (list JsValue) :=
  b ←' isSome this ;;
  if b then (v ←' read this ;; ret [v]) else ret [].

(** [expect(msg) { if (this.isSome()) { return this.value; } throw new Error(msg); }] *)
Definition expect (this : loc) (msg : string) : M JsValue :=
  b ←' isSome this ;;
  if b then read this else throw (Error msg).

(** [unwrap() { return this.expect("Option is None"); }] *)
Definition unwrap (this : loc) : M JsValue :=
  expect this "Option is None".

(** [unwrapOrElse(f) { return this.isSome() ? this.value : f(); }] *)
Definition unwrapOrElse (this : loc) (f : M JsValue) : M JsValue :=
  b ←' isSome this ;;
  if b then read this else f.

(** [unwrapOr(fallback) { return this.unwrapOrElse(() => fallback); }] *)
Definition unwrapOr (this : loc) (fallback : JsValue) : M JsValue :=
  unwrapOrElse this (ret fallback).

(** [map(f) { return this.isSome() ? Option.some(f(this.value)) : Option.none(); }] *)
Definition map (this : loc) (f : JsValue → M JsValue) : M loc :=
  b ←' isSome this ;;
  if b then (v ←' read this ;; u ←' f v ;; some u) else none.

(** [inspect(f) { if (this.isSome()) { f(this.value); } return this; }] *)
Definition inspect {R} (this : loc) (f : JsValue → M R) : M loc :=
  b ←' isSome this ;;
  ((if b then (v ←' read this ;; f v ;;' ret tt) else ret tt) ;;'
   ret this).

(** [mapOrElse(fallback, f) { return this.isSome() ? f(this.value) : fallback(); }] *)
Definition mapOrElse {U} (this : loc) (fallback : M U) (f : JsValue → M U) : M U :=
  b ←' isSome this ;;
  if b then (v ←' read this ;; f v) else fallback.

(** [mapOr(fallback, f) { return this.mapOrElse(() => fallback, f); }] *)
Definition mapOr {U} (this : loc) (fallback : U) (f : JsValue → M U) : M U :=
  mapOrElse this (ret fallback) f.

(** [andThen(f) { return this.isSome() ? f(this.value) : Option.none(); }] *)
Definition andThen (this : loc) (f : JsValue → M loc) : M loc :=
  b ←' isSome this ;;
  if b then (v ←' read this ;; f v) else none.

(** [and(optb) { return this.andThen(() => optb); }] *)
Definition and (this : loc) (optb : loc) : M loc :=
  andThen this (λ _, ret optb).

(** [filter(predicate) { return this.isSomeAnd(predicate) ? this : Option.none(); }] *)
Definition filter (this : loc) (predicate : JsValue → M bool) : M loc :=
  b ←' isSomeAnd this predicate ;;
  if b then ret this else none.

(** [orElse(f) { return this.isSome() ? this : f(); }] *)
Definition orElse (this : loc) (f : M loc) : M loc :=
  b ←' isSome this ;;
  if b then ret this else f.

(** [or(optb) { return this.orElse(() => optb); }] *)
Definition or (this : loc) (optb : loc) : M loc :=
  orElse this (ret optb).

(** [xor(optb) { return this.isSome() ? (optb.isNone() ? this : Option.none()) : optb; }] *)
Definition xor (this : loc) (optb : loc) : M loc :=
  b ←' isSome this ;;
  if b then (c ←' isNone optb ;; if c then ret this else none) else ret optb.

(** [insert(value) { this.value = value; return this.value; }] *)
Definition insert (this : loc) (value : JsValue) : M JsValue :=
  write this value ;;'
  read this.

(** [getOrInsertWith(f) { return this.isSome() ? this.value : this.insert(f()); }] *)
Definition getOrInsertWith (this : loc) (f : M JsValue) : M JsValue :=
  b ←' isSome this ;;
  if b then read this else (v ←' f ;; insert this v).

(** [getOrInsert(value) { return this.getOrInsertWith(() => value); }] *)
Definition getOrInsert (this : loc) (value : JsValue) : M JsValue :=
  getOrInsertWith this (ret value).

(** [take() { return this._exchange(undefined); }] *)
Definition take (this : loc) : M loc := _exchange this JUndefined.

(** [replace(value) { return this._exchange(value); }] *)
Definition replace (this : loc) (value : JsValue) : M loc :=
  _exchange this value.

(** [zip(other) { return this.isSome() && other.isSome()
      ? Option.some([this.value, other.value]) : Option.none(); }] *)
Definition zip (this : loc) (other : loc) : M loc :=
  b ←' isSome this ;;
  c ←' (if b then isSome other else ret false) ;;
  if c then (v ←' read this ;; w ←' read other ;; some (JArr [v; w]))
  else none.

End Option.

(** ** Observations and properties of computations *)

(** The container [o] is in the present state of store [h], as the class's
    own [isSome] reports it. *)
Definition present (h : heap) (o : loc) : Prop :=
  Option.isSome o h = (Ok true, h).

(** The container [o] is in the empty state, as [isNone] reports it. *)
Definition absent (h : heap) (o : loc) : Prop :=
  Option.isNone o h = (Ok true, h).

(** What a caller sees of a container: its state and its value. *)
Definition observe (o : loc) : M (bool * JsValue) :=
  b ←' Option.isSome o ;;
  v ←' read o ;;
  ret (b, v).

(** The outcome of a computation, the final store left aside. *)
Definition result {A} (m : M A) (h : heap) : outcome A := (m h).1.

(** A callback that is a function in the mathematical sense: no effect, no
    exception. *)
Definition pure {A B} (f : A → B) : A → M B := λ a, ret (f a).

(** The computation ends normally from every store. *)
Definition no_throw {A} (m : M A) : Prop :=
  ∀ h, ∃ a h', m h = (Ok a, h').

(** The computation leaves the object [l] as it found it. *)
Definition preserves {A} (l : loc) (m : M A) : Prop :=
  ∀ h, is_Some (h !! l) → (m h).2 !! l = h !! l.

(** [n] calls of [take] in a row on the same receiver, results collected. *)
Fixpoint take_times (n : nat) (this : loc) : M (list loc) :=
  match n with
  | O => ret []
  | S n' =>
      o ←' Option.take this ;;
      os ←' take_times n' this ;;
      ret (o :: os)
  end.

(** The test callback [() => { calls++; return v; }] over a captured counter
    variable [calls] that holds a number. *)
Definition counting (calls : loc) (v : JsValue) : M JsValue :=
  λ h, match h !! calls with
       | Some (JNum n) => (Ok v, <[calls:=JNum (n + 1)]> h)
       | _ => (Ok v, h)
       end.

(** * Properties *)

(** ** The embedding at work

    The combinations listed as testable in the specification, run from the
    empty store. *)

Example zip_both_present :
  result (a ←' Option.some (JNum 1) ;; b ←' Option.some (JStr "a") ;;
          r ←' Option.zip a b ;; observe r) ∅
  = Ok (true, JArr [JNum 1; JStr "a"]).
Proof. vm_compute. reflexivity. Qed.

Example zip_one_absent :
  result (a ←' Option.some (JNum 1) ;; b ←' Option.none ;;
          r ←' Option.zip a b ;; observe r) ∅
  = Ok (false, JUndefined).
Proof. vm_compute. reflexivity. Qed.

Example unwrap_none_throws :
  result (o ←' Option.none ;; Option.unwrap o) ∅
  = Throw (Error "Option is None").
Proof. vm_compute. reflexivity. Qed.

(** [filter] hands back the receiver itself, not a copy: a later [take] on
    the result empties the receiver. *)
Example filter_returns_receiver :
  result (o ←' Option.some (JNum 4) ;;
          r ←' Option.filter o (pure (λ _, true)) ;;
          Option.take r ;;' Option.isNone o) ∅
  = Ok true.
Proof. vm_compute. reflexivity. Qed.

(** [unwrapOrElse] calls its fallback only on an empty container. *)
Example unwrapOrElse_counts :
  (Option.unwrapOrElse 1 (counting 2 (JNum 0))
     {[1%positive := JNum 5; 2%positive := JNum 0]}).2 !! 2%positive
  = Some (JNum 0)
  ∧ (Option.unwrapOrElse 1 (counting 2 (JNum 0))
       {[1%positive := JUndefined; 2%positive := JNum 0]}).2 !! 2%positive
    = Some (JNum 1).
Proof. split; vm_compute; reflexivity. Qed.

(** ** The store *)

Section store.
Implicit Types (h : heap) (l : loc) (v : JsValue).

Lemma slot_insert_eq h l v : slot (<[l:=v]> h) l = v.
Proof. unfold slot. by rewrite lookup_insert_eq. Qed.

Lemma slot_insert_ne h l l' v : l ≠ l' → slot (<[l:=v]> h) l' = slot h l'.
Proof. intros Hne. unfold slot. by rewrite lookup_insert_ne. Qed.

Lemma fresh_unallocated h : h !! fresh (dom h) = None.
Proof. apply not_elem_of_dom, is_fresh. Qed.

Lemma fresh_ne h l : is_Some (h !! l) → fresh (dom h) ≠ l.
Proof.
  intros [v Hv] Heq. subst l. by rewrite fresh_unallocated in Hv.
Qed.

Lemma slot_defined_allocated h l : slot h l ≠ JUndefined → is_Some (h !! l).
Proof.
  unfold slot. destruct (h !! l) as [v|]; [eauto | done].
Qed.

Lemma is_undefined_true v : is_undefined v = true ↔ v = JUndefined.
Proof. destruct v; split; intros; try done. Qed.

Lemma is_undefined_false v : is_undefined v = false ↔ v ≠ JUndefined.
Proof. destruct v; split; intros; try done. Qed.

End store.

(** ** What each method computes *)

Section runs.
Implicit Types (h : heap) (this : loc) (v : JsValue).

Lemma alloc_run v h :
  alloc v h = (Ok (fresh (dom h)), <[fresh (dom h):=v]> h).
Proof. reflexivity. Qed.

Lemma isNone_run this h :
  Option.isNone this h = (Ok (is_undefined (slot h this)), h).
Proof. reflexivity. Qed.

Lemma isSome_run this h :
  Option.isSome this h = (Ok (negb (is_undefined (slot h this))), h).
Proof. reflexivity. Qed.

Lemma present_iff h this : present h this ↔ slot h this ≠ JUndefined.
Proof.
  unfold present. rewrite isSome_run, <- is_undefined_false.
  split; [intros [= H] | intros H]; destruct (is_undefined _); done.
Qed.

Lemma absent_iff h this : absent h this ↔ slot h this = JUndefined.
Proof.
  unfold absent. rewrite isNone_run, <- is_undefined_true.
  split; [intros [= H] | intros H]; destruct (is_undefined _); done.
Qed.

Lemma present_allocated h this : present h this → is_Some (h !! this).
Proof. rewrite present_iff. apply slot_defined_allocated. Qed.

Lemma expect_present this msg h :
  present h this → Option.expect this msg h = (Ok (slot h this), h).
Proof.
  intros Hp%present_iff%is_undefined_false.
  unfold Option.expect, bind. rewrite isSome_run, Hp. reflexivity.
Qed.

Lemma expect_absent this msg h :
  absent h this → Option.expect this msg h = (Throw (Error msg), h).
Proof.
  intros Ha%absent_iff%is_undefined_true.
  unfold Option.expect, bind. rewrite isSome_run, Ha. reflexivity.
Qed.

Lemma some_run v h :
  Option.some v h = (Ok (fresh (dom h)), <[fresh (dom h):=v]> h).
Proof. reflexivity. Qed.

Lemma none_run h :
  Option.none h = (Ok (fresh (dom h)), <[fresh (dom h):=JUndefined]> h).
Proof. reflexivity. Qed.

End runs.

(** ** Construction *)

(** C1, as the code has it: for every value [v] other than [undefined],
    [some(v)] produces a container on which [isSome()] returns true and
    [unwrap()] returns [v]. *)
Theorem some_isSome_unwrap (v : JsValue) (h : heap) :
  v ≠ JUndefined →
  ∃ o h1, Option.some v h = (Ok o, h1)
          ∧ Option.isSome o h1 = (Ok true, h1)
          ∧ Option.unwrap o h1 = (Ok v, h1).
Proof.
  intros Hv. eexists _, _. split; [apply some_run |].
  set (o := fresh (dom h)). set (h1 := <[o:=v]> h).
  assert (Hp : present h1 o).
  { apply present_iff. unfold h1. by rewrite slot_insert_eq. }
  split; [exact Hp |].
  unfold Option.unwrap. rewrite (expect_present _ _ _ Hp).
  unfold h1. by rewrite slot_insert_eq.
Qed.

Lemma some_isSome_unwrap_witness :
  ∃ o h1, Option.some (JNum 7) ∅ = (Ok o, h1)
          ∧ Option.isSome o h1 = (Ok true, h1)
          ∧ Option.unwrap o h1 = (Ok (JNum 7), h1).
Proof. apply (some_isSome_unwrap (JNum 7) ∅). discriminate. Defined.

(** C1 as stated fails at [v = undefined]: [some(undefined)] is a container
    on which [isSome()] returns false and [unwrap()] throws. *)
Lemma some_undefined_not_present :
  result (o ←' Option.some JUndefined ;; Option.isSome o) ∅ = Ok false
  ∧ result (o ←' Option.some JUndefined ;; Option.unwrap o) ∅
    = Throw (Error "Option is None").
Proof. split; vm_compute; reflexivity. Qed.


(** ** Failure *)

Section failure.
Context {A B : Type}.
Implicit Types (h : heap) (this : loc) (v : JsValue).

Lemma no_throw_ret (a : A) : no_throw (ret a).
Proof. intros h. by eexists _, _. Qed.

Lemma no_throw_bind (m : M A) (k : A → M B) :
  no_throw m → (∀ a, no_throw (k a)) → no_throw (bind m k).
Proof.
  intros Hm Hk h. destruct (Hm h) as (a & h' & Hrun).
  unfold bind. rewrite Hrun. apply Hk.
Qed.

Lemma no_throw_if (b : bool) (m1 m2 : M A) :
  no_throw m1 → no_throw m2 → no_throw (if b then m1 else m2).
Proof. by destruct b. Qed.

End failure.

Lemma no_throw_read l : no_throw (read l).
Proof. intros h. by eexists _, _. Qed.

Lemma no_throw_write l v : no_throw (write l v).
Proof. intros h. by eexists _, _. Qed.

Lemma no_throw_alloc v : no_throw (alloc v).
Proof. intros h. by eexists _, _. Qed.

Create HintDb total.
#[local] Hint Resolve no_throw_ret no_throw_bind no_throw_if no_throw_read
  no_throw_write no_throw_alloc : total.

(** Unfolds the methods down to the primitives of the monad. *)
Ltac unfold_methods :=
  unfold Option.zip, Option.replace, Option.take, Option.getOrInsert,
    Option.getOrInsertWith, Option.insert, Option.xor, Option.or,
    Option.orElse, Option.filter, Option.and, Option.andThen, Option.mapOr,
    Option.mapOrElse, Option.inspect, Option.map, Option.unwrapOr,
    Option.unwrapOrElse, Option.asSlice, Option.isSomeAnd, Option.isSome,
    Option.isNone, Option._exchange, Option.some, Option.none,
    Option.constructor.

Ltac solve_total := unfold_methods; auto 30 with total.

(** C2: [expect(msg)] returns the contained value of a present container and
    otherwise throws the error carrying [msg]; [unwrap()] is [expect] with
    the message "Option is None"; neither fails on a present container, and
    no other method throws (a method that calls a callback ends normally
    whenever the callback does). *)
Theorem only_expect_and_unwrap_fail (this : loc) (h : heap) :
  (∀ msg, present h this → Option.expect this msg h = (Ok (slot h this), h))
  ∧ (∀ msg, absent h this → Option.expect this msg h = (Throw (Error msg), h))
  ∧ Option.unwrap this = Option.expect this "Option is None"
  ∧ (present h this → Option.unwrap this h = (Ok (slot h this), h))
  ∧ (absent h this →
       Option.unwrap this h = (Throw (Error "Option is None"), h))
  ∧ (∀ v, no_throw (Option.some v)) ∧ no_throw Option.none
  ∧ no_throw (Option.isSome this) ∧ no_throw (Option.isNone this)
  ∧ no_throw (Option.asSlice this)
  ∧ (∀ fallback, no_throw (Option.unwrapOr this fallback))
  ∧ (∀ optb, no_throw (Option.and this optb))
  ∧ (∀ optb, no_throw (Option.or this optb))
  ∧ (∀ optb, no_throw (Option.xor this optb))
  ∧ (∀ other, no_throw (Option.zip this other))
  ∧ (∀ v, no_throw (Option.insert this v))
  ∧ (∀ v, no_throw (Option.getOrInsert this v))
  ∧ no_throw (Option.take this)
  ∧ (∀ v, no_throw (Option.replace this v))
  ∧ (∀ p, (∀ a, no_throw (p a)) → no_throw (Option.isSomeAnd this p))
  ∧ (∀ p, (∀ a, no_throw (p a)) → no_throw (Option.filter this p))
  ∧ (∀ f, no_throw f → no_throw (Option.unwrapOrElse this f))
  ∧ (∀ f, (∀ a, no_throw (f a)) → no_throw (Option.map this f))
  ∧ (∀ R (f : JsValue → M R),
       (∀ a, no_throw (f a)) → no_throw (Option.inspect this f))
  ∧ (∀ U (d : U) (f : JsValue → M U),
       (∀ a, no_throw (f a)) → no_throw (Option.mapOr this d f))
  ∧ (∀ U (d : M U) (f : JsValue → M U),
       no_throw d → (∀ a, no_throw (f a)) → no_throw (Option.mapOrElse this d f))
  ∧ (∀ f, (∀ a, no_throw (f a)) → no_throw (Option.andThen this f))
  ∧ (∀ f, no_throw f → no_throw (Option.orElse this f))
  ∧ (∀ f, no_throw f → no_throw (Option.getOrInsertWith this f)).
Proof.
  repeat split; intros; try solve_total.
  - by apply expect_present.
  - by apply expect_absent.
  - by apply expect_present.
  - by apply expect_absent.
Qed.

Lemma only_expect_and_unwrap_fail_witness :
  Option.expect 1 "no value" {[1%positive := JNum 5]}
    = (Ok (JNum 5), {[1%positive := JNum 5]})
  ∧ Option.expect 1 "no value" {[1%positive := JUndefined]}
    = (Throw (Error "no value"), {[1%positive := JUndefined]})
  ∧ no_throw (Option.map 1 (pure (λ v, JArr [v]))).
Proof.
  split; [| split].
  - destruct (only_expect_and_unwrap_fail 1 {[1%positive := JNum 5]})
      as (Hexpect & _).
    apply Hexpect. vm_compute. reflexivity.
  - destruct (only_expect_and_unwrap_fail 1 {[1%positive := JUndefined]})
      as (_ & Hexpect & _).
    apply Hexpect. vm_compute. reflexivity.
  - pose proof (only_expect_and_unwrap_fail 1 ∅) as Hall.
    repeat (destruct Hall as [? Hall]).
    match goal with
    | Hmap : ∀ f, _ → no_throw (Option.map _ f) |- _ => apply Hmap
    end.
    intros a h. eexists _, _. reflexivity.
Defined.

(** ** Methods that only read *)

Section frame.
Context {A B : Type}.
Implicit Types (h : heap) (l : loc) (v : JsValue).

Lemma preserves_ret l (a : A) : preserves l (ret a).
Proof. by intros h _. Qed.

Lemma preserves_throw l e : preserves l (throw (A:=A) e).
Proof. by intros h _. Qed.

Lemma preserves_bind l (m : M A) (k : A → M B) :
  preserves l m → (∀ a, preserves l (k a)) → preserves l (bind m k).
Proof.
  intros Hm Hk h Hl. specialize (Hm h Hl). unfold bind.
  destruct (m h) as [[a|e] h']; simpl in *; [| done].
  rewrite <- Hm. apply Hk. by rewrite Hm.
Qed.

Lemma preserves_if l (b : bool) (m1 m2 : M A) :
  preserves l m1 → preserves l m2 → preserves l (if b then m1 else m2).
Proof. by destruct b. Qed.

End frame.

Lemma preserves_read l l' : preserves l (read l').
Proof. by intros h _. Qed.

(** A new object never takes the place of a live one. *)
Lemma preserves_alloc l v : preserves l (alloc v).
Proof.
  intros h Hl. simpl. apply lookup_insert_ne. by apply fresh_ne.
Qed.

Create HintDb frame.
#[local] Hint Resolve preserves_ret preserves_throw preserves_bind
  preserves_if preserves_read preserves_alloc : frame.

Ltac solve_frame :=
  unfold Option.unwrap, Option.expect; unfold_methods; auto 30 with frame.

(** C8: every method other than [take], [replace], [insert], [getOrInsert]
    and [getOrInsertWith] leaves the slot of its receiver as it found it.
    A method that calls a callback adds no write of its own: the receiver
    is unchanged whenever the callback leaves it unchanged. *)
Theorem read_only_methods (this : loc) :
  preserves this (Option.isSome this)
  ∧ preserves this (Option.isNone this)
  ∧ (∀ p, (∀ a, preserves this (p a)) →
       preserves this (Option.isSomeAnd this p))
  ∧ preserves this (Option.asSlice this)
  ∧ (∀ msg, preserves this (Option.expect this msg))
  ∧ preserves this (Option.unwrap this)
  ∧ (∀ fallback, preserves this (Option.unwrapOr this fallback))
  ∧ (∀ f, preserves this f → preserves this (Option.unwrapOrElse this f))
  ∧ (∀ f, (∀ a, preserves this (f a)) → preserves this (Option.map this f))
  ∧ (∀ R (f : JsValue → M R),
       (∀ a, preserves this (f a)) → preserves this (Option.inspect this f))
  ∧ (∀ U (d : U) (f : JsValue → M U),
       (∀ a, preserves this (f a)) → preserves this (Option.mapOr this d f))
  ∧ (∀ U (d : M U) (f : JsValue → M U),
       preserves this d → (∀ a, preserves this (f a)) →
       preserves this (Option.mapOrElse this d f))
  ∧ (∀ optb, preserves this (Option.and this optb))
  ∧ (∀ f, (∀ a, preserves this (f a)) →
       preserves this (Option.andThen this f))
  ∧ (∀ p, (∀ a, preserves this (p a)) →
       preserves this (Option.filter this p))
  ∧ (∀ optb, preserves this (Option.or this optb))
  ∧ (∀ f, preserves this f → preserves this (Option.orElse this f))
  ∧ (∀ optb, preserves this (Option.xor this optb))
  ∧ (∀ other, preserves this (Option.zip this other)).
Proof.
  repeat apply conj; intros; solve_frame.
Qed.

Lemma read_only_methods_witness :
  (Option.map 1 (pure (λ v, JArr [v; v])) {[1%positive := JNum 5]}).2
    !! 1%positive = Some (JNum 5)
  ∧ (Option.filter 1 (pure (λ _, false)) {[1%positive := JStr "a"]}).2
    !! 1%positive = Some (JStr "a").
Proof.
  split.
  - pose proof (read_only_methods 1) as Hall.
    repeat (destruct Hall as [? Hall]).
    match goal with
    | Hmap : ∀ f, _ → preserves _ (Option.map _ f) |- _ =>
        etransitivity; [apply (Hmap (pure (λ v, JArr [v; v]))) |]
    end.
    + intros a h _. reflexivity.
    + vm_compute. eexists. reflexivity.
    + reflexivity.
  - pose proof (read_only_methods 1) as Hall.
    repeat (destruct Hall as [? Hall]).
    match goal with
    | Hfilter : ∀ p, _ → preserves _ (Option.filter _ p) |- _ =>
        etransitivity; [apply (Hfilter (pure (λ _, false))) |]
    end.
    + intros a h _. reflexivity.
    + vm_compute. eexists. reflexivity.
    + reflexivity.
Defined.

(** ** Transformation: [map] and [andThen] *)

Section transformation.
Implicit Types (h : heap) (this c : loc) (v u : JsValue).

Lemma observe_run c h :
  observe c h = (Ok (negb (is_undefined (slot h c)), slot h c), h).
Proof. reflexivity. Qed.

Lemma map_present this (f : JsValue → M JsValue) h u h1 :
  present h this →
  f (slot h this) h = (Ok u, h1) →
  Option.map this f h = (Ok (fresh (dom h1)), <[fresh (dom h1):=u]> h1).
Proof.
  intros Hp%present_iff%is_undefined_false Hf.
  unfold Option.map, bind. rewrite isSome_run, Hp. simpl.
  rewrite Hf. reflexivity.
Qed.

Lemma map_absent this (f : JsValue → M JsValue) h :
  absent h this → Option.map this f h = Option.none h.
Proof.
  intros Ha%absent_iff%is_undefined_true.
  unfold Option.map, bind. rewrite isSome_run, Ha. reflexivity.
Qed.

Lemma present_or_absent h c : {present h c} + {absent h c}.
Proof.
  destruct (is_undefined (slot h c)) eqn:E.
  - right. by apply absent_iff, is_undefined_true.
  - left. by apply present_iff, is_undefined_false.
Qed.

(** What a caller sees of a freshly built container. *)
Lemma observe_new h l v :
  result (observe l) (<[l:=v]> h) = Ok (negb (is_undefined v), v).
Proof. unfold result. rewrite observe_run. simpl. by rewrite slot_insert_eq. Qed.

Lemma map_pure_observe c (f : JsValue → JsValue) h :
  result (o ←' Option.map c (pure f) ;; observe o) h
  = if is_undefined (slot h c) then Ok (false, JUndefined)
    else Ok (negb (is_undefined (f (slot h c))), f (slot h c)).
Proof.
  unfold result, bind at 1.
  destruct (present_or_absent h c) as [Hp|Ha].
  - rewrite (map_present c (pure f) h (f (slot h c)) h Hp eq_refl).
    apply present_iff, is_undefined_false in Hp. rewrite Hp.
    apply observe_new.
  - rewrite (map_absent _ _ _ Ha), none_run.
    apply absent_iff, is_undefined_true in Ha. rewrite Ha.
    apply observe_new.
Qed.

End transformation.

(** C3, as the code has it: [c.map(identity)] has the state and value of
    [c]; and [c.map(f).map(g)] has the state and value of
    [c.map(x => g(f(x)))] provided [f] does not return [undefined] on the
    value of a present [c]. *)
Theorem map_functor_laws (c : loc) (f g : JsValue → JsValue) (h : heap) :
  result (o ←' Option.map c (pure id) ;; observe o) h = result (observe c) h
  ∧ ((present h c → f (slot h c) ≠ JUndefined) →
     result (o1 ←' Option.map c (pure f) ;;
             o2 ←' Option.map o1 (pure g) ;;
             observe o2) h
     = result (o ←' Option.map c (pure (λ x, g (f x))) ;; observe o) h).
Proof.
  split.
  - rewrite map_pure_observe. unfold result. rewrite observe_run. simpl.
    destruct (is_undefined (slot h c)) eqn:E; [| done].
    apply is_undefined_true in E. by rewrite E.
  - intros Hf. rewrite map_pure_observe.
    unfold result, bind at 1.
    destruct (present_or_absent h c) as [Hp|Ha].
    + rewrite (map_present c (pure f) h (f (slot h c)) h Hp eq_refl).
      specialize (Hf Hp). apply present_iff, is_undefined_false in Hp.
      rewrite Hp.
      etransitivity; [apply (map_pure_observe (fresh (dom h)) g) |].
      rewrite slot_insert_eq.
      apply is_undefined_false in Hf. by rewrite Hf.
    + rewrite (map_absent _ _ _ Ha), none_run.
      apply absent_iff, is_undefined_true in Ha. rewrite Ha.
      etransitivity; [apply (map_pure_observe (fresh (dom h)) g) |].
      by rewrite slot_insert_eq.
Qed.

Lemma map_functor_laws_witness :
  result (o1 ←' Option.map 1 (pure (λ x, JArr [x])) ;;
          o2 ←' Option.map o1 (pure (λ y, JArr [y; JNull])) ;;
          observe o2) {[1%positive := JNum 2]}
  = result (o ←' Option.map 1 (pure (λ x, JArr [JArr [x]; JNull])) ;;
            observe o) {[1%positive := JNum 2]}.
Proof.
  destruct (map_functor_laws 1 (λ x, JArr [x]) (λ y, JArr [y; JNull])
              {[1%positive := JNum 2]}) as [_ Hcomp].
  apply Hcomp. intros _. vm_compute. discriminate.
Defined.

(** C3 as stated fails when [f] returns [undefined]: with [c = some(1)],
    [f = x => undefined] and [g = x => 0], [c.map(f).map(g)] is empty while
    [c.map(x => g(f(x)))] is present with 0. *)
Lemma map_composition_undefined :
  result (o1 ←' Option.map 1 (pure (λ _, JUndefined)) ;;
          o2 ←' Option.map o1 (pure (λ _, JNum 0)) ;;
          observe o2) {[1%positive := JNum 1]}
  = Ok (false, JUndefined)
  ∧ result (o ←' Option.map 1 (pure (λ x, (λ _, JNum 0) ((λ _, JUndefined) x))) ;;
            observe o) {[1%positive := JNum 1]}
    = Ok (true, JNum 0).
Proof. split; vm_compute; reflexivity. Qed.

(** C4, as the code has it: for every value [v] other than [undefined] and
    every [f] returning a container, [some(v).andThen(f)] is the call
    [f(v)] itself: same returned container, same effects. *)
Theorem andThen_left_identity (v : JsValue) (f : JsValue → M loc) (h : heap) :
  v ≠ JUndefined →
  ∃ o h1, Option.some v h = (Ok o, h1)
          ∧ Option.andThen o f h1 = f v h1.
Proof.
  intros Hv%is_undefined_false. eexists _, _. split; [apply some_run |].
  unfold Option.andThen, bind. rewrite isSome_run, slot_insert_eq, Hv. simpl.
  by rewrite slot_insert_eq.
Qed.

Lemma andThen_left_identity_witness :
  ∃ o h1, Option.some (JStr "a") ∅ = (Ok o, h1)
          ∧ Option.andThen o (λ x, Option.some (JArr [x])) h1
            = Option.some (JArr [JStr "a"]) h1.
Proof.
  apply (andThen_left_identity (JStr "a") (λ x, Option.some (JArr [x])) ∅).
  discriminate.
Defined.

(** C4 as stated fails at [v = undefined]: with [f = x => some(1)],
    [some(undefined).andThen(f)] is empty while [f(undefined)] is present
    with 1. *)
Lemma andThen_left_identity_undefined :
  result (o ←' Option.some JUndefined ;;
          r ←' Option.andThen o (λ _, Option.some (JNum 1)) ;;
          observe r) ∅
  = Ok (false, JUndefined)
  ∧ result (r ←' (λ _, Option.some (JNum 1)) JUndefined ;; observe r) ∅
    = Ok (true, JNum 1).
Proof. split; vm_compute; reflexivity. Qed.

(** ** Combination: [xor] *)

Section combination.
Implicit Types (h : heap) (x y : loc) (v w : JsValue).

Lemma xor_run x y h :
  Option.xor x y h
  = if negb (is_undefined (slot h x))
    then if is_undefined (slot h y) then (Ok x, h) else Option.none h
    else (Ok y, h).
Proof.
  unfold Option.xor, bind. rewrite isSome_run.
  destruct (is_undefined (slot h x)); simpl; [done |].
  by destruct (is_undefined (slot h y)).
Qed.

Lemma fresh_after_insert h x v : fresh (dom (<[x:=v]> h)) ≠ x.
Proof. apply fresh_ne. rewrite lookup_insert_eq. eauto. Qed.

(** [xor] of two containers built one after the other. *)
Lemma xor_new_observe v w h :
  result (x ←' alloc v ;; y ←' alloc w ;;
          r ←' Option.xor x y ;; observe r) h
  = Ok (if is_undefined v then (negb (is_undefined w), w)
        else if is_undefined w then (true, v) else (false, JUndefined)).
Proof.
  unfold result, bind at 1. rewrite alloc_run.
  set (x := fresh (dom h)). set (h1 := <[x:=v]> h).
  unfold bind at 1. rewrite alloc_run.
  set (y := fresh (dom h1)). set (h2 := <[y:=w]> h1).
  assert (y ≠ x) as Hne by apply fresh_after_insert.
  assert (slot h2 x = v) as Hx.
  { unfold h2. rewrite slot_insert_ne by done. apply slot_insert_eq. }
  assert (slot h2 y = w) as Hy by apply slot_insert_eq.
  unfold bind. rewrite xor_run, Hx, Hy.
  destruct (is_undefined v) eqn:Ev; simpl.
  - by rewrite Hy.
  - destruct (is_undefined w) eqn:Ew; simpl.
    + by rewrite Hx, Ev.
    + by rewrite slot_insert_eq.
Qed.

End combination.

(** C5: [a.xor(b)] is [a] when only [a] is present, [b] when only [b] is
    present, and an empty container when both or neither are present; the
    four cases of the specification evaluate accordingly. *)
Theorem xor_truth_table (a b : loc) (h : heap) :
  (present h a → absent h b → Option.xor a b h = (Ok a, h))
  ∧ (absent h a → present h b → Option.xor a b h = (Ok b, h))
  ∧ (present h a → present h b →
       ∃ o h', Option.xor a b h = (Ok o, h') ∧ absent h' o)
  ∧ (absent h a → absent h b →
       ∃ o h', Option.xor a b h = (Ok o, h') ∧ absent h' o)
  ∧ result (x ←' Option.some (JNum 1) ;; y ←' Option.none ;;
            r ←' Option.xor x y ;; observe r) h = Ok (true, JNum 1)
  ∧ result (x ←' Option.none ;; y ←' Option.some (JNum 2) ;;
            r ←' Option.xor x y ;; observe r) h = Ok (true, JNum 2)
  ∧ result (x ←' Option.some (JNum 1) ;; y ←' Option.some (JNum 2) ;;
            r ←' Option.xor x y ;; observe r) h = Ok (false, JUndefined)
  ∧ result (x ←' Option.none ;; y ←' Option.none ;;
            r ←' Option.xor x y ;; observe r) h = Ok (false, JUndefined).
Proof.
  repeat apply conj.
  - intros Ha%present_iff%is_undefined_false Hb%absent_iff%is_undefined_true.
    by rewrite xor_run, Ha, Hb.
  - intros Ha%absent_iff%is_undefined_true _. by rewrite xor_run, Ha.
  - intros Ha%present_iff%is_undefined_false Hb%present_iff%is_undefined_false.
    rewrite xor_run, Ha, Hb. simpl. eexists _, _. split; [apply none_run |].
    apply absent_iff, slot_insert_eq.
  - intros Ha%absent_iff%is_undefined_true Hb. rewrite xor_run, Ha. simpl.
    by eexists _, _.
  - apply (xor_new_observe (JNum 1) JUndefined).
  - apply (xor_new_observe JUndefined (JNum 2)).
  - apply (xor_new_observe (JNum 1) (JNum 2)).
  - apply (xor_new_observe JUndefined JUndefined).
Qed.

Lemma xor_truth_table_witness :
  Option.xor 1 2 {[1%positive := JNum 1; 2%positive := JUndefined]}
    = (Ok 1%positive, {[1%positive := JNum 1; 2%positive := JUndefined]})
  ∧ Option.xor 2 1 {[1%positive := JNum 1; 2%positive := JUndefined]}
    = (Ok 1%positive, {[1%positive := JNum 1; 2%positive := JUndefined]}).
Proof.
  split.
  - destruct (xor_truth_table 1 2
                {[1%positive := JNum 1; 2%positive := JUndefined]})
      as (Hleft & _).
    apply Hleft; vm_compute; reflexivity.
  - destruct (xor_truth_table 2 1
                {[1%positive := JNum 1; 2%positive := JUndefined]})
      as (_ & Hright & _).
    apply Hright; vm_compute; reflexivity.
Defined.

(** ** Mutation: [take], [replace], [insert], [getOrInsertWith] *)

Section mutation.
Implicit Types (h : heap) (this x : loc) (v w : JsValue).

Lemma exchange_run this v h :
  Option._exchange this v h
  = (Ok (fresh (dom h)), <[this:=v]> (<[fresh (dom h):=slot h this]> h)).
Proof. reflexivity. Qed.

Lemma insert_run this v h :
  Option.insert this v h = (Ok v, <[this:=v]> h).
Proof.
  unfold Option.insert, bind, write, read. by rewrite slot_insert_eq.
Qed.

(** After an exchange the receiver holds the new value, and the returned
    container holds the old one as soon as the receiver was a live object. *)
Lemma exchange_slots this v h :
  let o := fresh (dom h) in
  let h' := <[this:=v]> (<[o:=slot h this]> h) in
  slot h' this = v ∧ (is_Some (h !! this) → o ≠ this ∧ slot h' o = slot h this).
Proof.
  intros o h'. split; [apply slot_insert_eq |].
  intros Hl. assert (o ≠ this) as Hne by by apply fresh_ne.
  split; [done |]. unfold h'. rewrite slot_insert_ne by done.
  apply slot_insert_eq.
Qed.

(** Taking from an empty container writes [undefined] only. *)
Lemma take_absent_store this h :
  absent h this →
  let o := fresh (dom h) in
  ∃ h', Option.take this h = (Ok o, h')
        ∧ slot h' o = JUndefined
        ∧ ∀ x, slot h x = JUndefined → slot h' x = JUndefined.
Proof.
  intros Ha%absent_iff o. eexists. split; [apply exchange_run |].
  fold o. rewrite Ha.
  assert (∀ x, slot h x = JUndefined →
            slot (<[this:=JUndefined]> (<[o:=JUndefined]> h)) x = JUndefined)
    as Hkeep.
  { intros x Hx. destruct (decide (this = x)) as [->|Hne1].
    - apply slot_insert_eq.
    - rewrite slot_insert_ne by done.
      destruct (decide (o = x)) as [->|Hne2]; [apply slot_insert_eq |].
      by rewrite slot_insert_ne. }
  split; [| exact Hkeep].
  destruct (decide (this = o)) as [->|Hne]; [apply slot_insert_eq |].
  rewrite slot_insert_ne by done. apply slot_insert_eq.
Qed.

Lemma take_times_absent n : ∀ this h,
  absent h this →
  ∃ os h', take_times n this h = (Ok os, h')
           ∧ length os = n
           ∧ Forall (absent h') os
           ∧ ∀ x, slot h x = JUndefined → slot h' x = JUndefined.
Proof.
  induction n as [|n IH]; intros this h Ha.
  - exists [], h. by repeat split.
  - destruct (take_absent_store this h Ha) as (h1 & Hrun & Ho & Hkeep).
    assert (absent h1 this) as Ha1.
    { apply absent_iff, Hkeep. by apply absent_iff. }
    destruct (IH this h1 Ha1) as (os & h2 & Hruns & Hlen & Hall & Hkeep2).
    exists (fresh (dom h) :: os), h2. simpl. unfold bind at 1.
    rewrite Hrun. unfold bind. rewrite Hruns. repeat split.
    + by rewrite Hlen.
    + constructor; [| done]. by apply absent_iff, Hkeep2.
    + intros x Hx. by apply Hkeep2, Hkeep.
Qed.

End mutation.

(** C6: [take()] on a present container returns a present container
    holding the original value and leaves the receiver empty, so that
    [unwrap()] on the receiver then throws; on an empty container it
    returns an empty container and leaves the receiver empty; any number of
    further calls end normally and return empty containers. *)
Theorem take_spec (this : loc) (h : heap) :
  (present h this →
     ∃ o h', Option.take this h = (Ok o, h')
             ∧ present h' o ∧ slot h' o = slot h this
             ∧ absent h' this
             ∧ Option.unwrap this h' = (Throw (Error "Option is None"), h'))
  ∧ (absent h this →
       ∃ o h', Option.take this h = (Ok o, h')
               ∧ absent h' o ∧ absent h' this)
  ∧ (absent h this →
       ∀ n, ∃ os h', take_times n this h = (Ok os, h')
                     ∧ length os = n
                     ∧ Forall (absent h') os ∧ absent h' this).
Proof.
  repeat apply conj.
  - intros Hp. eexists _, _. split; [apply exchange_run |].
    destruct (exchange_slots this JUndefined h) as [Hthis Hold].
    destruct (Hold (present_allocated _ _ Hp)) as [Hne Ho].
    assert (absent (<[this:=JUndefined]>
                      (<[fresh (dom h):=slot h this]> h)) this) as Ha
      by by apply absent_iff.
    repeat split; [| done | done |].
    + apply present_iff. rewrite Ho. by apply present_iff.
    + by apply expect_absent.
  - intros Ha. destruct (take_absent_store this h Ha) as (h' & Hrun & Ho & Hkeep).
    eexists _, h'. split; [exact Hrun |].
    split; apply absent_iff; [done |]. by apply Hkeep, absent_iff.
  - intros Ha n.
    destruct (take_times_absent n this h Ha) as (os & h' & Hrun & Hlen & Hall & Hkeep).
    exists os, h'. repeat split; try done.
    by apply absent_iff, Hkeep, absent_iff.
Qed.

Lemma take_spec_witness :
  (∃ o h', Option.take 1 {[1%positive := JNum 5]} = (Ok o, h')
           ∧ present h' o ∧ slot h' o = slot {[1%positive := JNum 5]} 1
           ∧ absent h' 1
           ∧ Option.unwrap 1 h' = (Throw (Error "Option is None"), h'))
  ∧ (∃ os h', take_times 3 1 {[1%positive := JUndefined]} = (Ok os, h')
              ∧ length os = 3
              ∧ Forall (absent h') os ∧ absent h' 1).
Proof.
  split.
  - destruct (take_spec 1 {[1%positive := JNum 5]}) as (Hpresent & _).
    apply Hpresent. vm_compute. reflexivity.
  - destruct (take_spec 1 {[1%positive := JUndefined]}) as (_ & _ & Hmany).
    apply Hmany. vm_compute. reflexivity.
Defined.

(** C7, as the code has it: [insert(v)] stores [v] in the receiver and
    returns it, and the receiver is then present whenever [v] is not
    [undefined]; [replace(v2)] on a container holding [v1] returns a new
    present container holding [v1] and leaves [v2] in the receiver, which is
    then present whenever [v2] is not [undefined]. *)
Theorem insert_replace_spec (this : loc) (h : heap) :
  (∀ v, ∃ h', Option.insert this v h = (Ok v, h')
              ∧ slot h' this = v
              ∧ (v ≠ JUndefined → present h' this))
  ∧ (∀ v2, present h this →
       ∃ o h', Option.replace this v2 h = (Ok o, h')
               ∧ o ≠ this
               ∧ present h' o ∧ slot h' o = slot h this
               ∧ slot h' this = v2
               ∧ (v2 ≠ JUndefined → present h' this)).
Proof.
  split.
  - intros v. eexists. split; [apply insert_run |].
    split; [apply slot_insert_eq |].
    intros Hv. apply present_iff. by rewrite slot_insert_eq.
  - intros v2 Hp. eexists _, _. split; [apply exchange_run |].
    destruct (exchange_slots this v2 h) as [Hthis Hold].
    destruct (Hold (present_allocated _ _ Hp)) as [Hne Ho].
    repeat split; try done.
    + apply present_iff. rewrite Ho. by apply present_iff.
    + intros Hv. apply present_iff. by rewrite Hthis.
Qed.

Lemma insert_replace_spec_witness :
  (∃ h', Option.insert 1 (JStr "b") {[1%positive := JStr "a"]}
         = (Ok (JStr "b"), h')
         ∧ slot h' 1 = JStr "b" ∧ present h' 1)
  ∧ (∃ o h', Option.replace 1 (JStr "b") {[1%positive := JStr "a"]}
             = (Ok o, h')
             ∧ present h' o ∧ slot h' o = JStr "a"
             ∧ slot h' 1 = JStr "b" ∧ present h' 1).
Proof.
  destruct (insert_replace_spec 1 {[1%positive := JStr "a"]})
    as [Hinsert Hreplace].
  split.
  - destruct (Hinsert (JStr "b")) as (h' & Hrun & Hslot & Hp).
    exists h'. repeat split; [done | done |]. apply Hp. discriminate.
  - destruct (Hreplace (JStr "b")) as (o & h' & Hrun & _ & Ho & Hold & Hnew & Hp).
    { vm_compute. reflexivity. }
    exists o, h'. repeat split; [done | done | done | done |].
    apply Hp. discriminate.
Defined.

(** C7 as stated fails at [undefined]: after [insert(undefined)] or
    [replace(undefined)] on [some(1)] the receiver is empty. *)
Lemma insert_replace_undefined :
  result (o ←' Option.some (JNum 1) ;;
          Option.insert o JUndefined ;;' Option.isSome o) ∅ = Ok false
  ∧ result (o ←' Option.some (JNum 1) ;;
            Option.replace o JUndefined ;;' Option.isSome o) ∅ = Ok false.
Proof. split; vm_compute; reflexivity. Qed.

Section getOrInsertWith.
Implicit Types (h : heap) (this calls : loc) (v r : JsValue).

Lemma getOrInsertWith_present this (f : M JsValue) h :
  present h this → Option.getOrInsertWith this f h = (Ok (slot h this), h).
Proof.
  intros Hp%present_iff%is_undefined_false.
  unfold Option.getOrInsertWith, bind. rewrite isSome_run, Hp. reflexivity.
Qed.

Lemma getOrInsertWith_absent this (f : M JsValue) h r h1 :
  absent h this → f h = (Ok r, h1) →
  Option.getOrInsertWith this f h = (Ok r, <[this:=r]> h1).
Proof.
  intros Ha%absent_iff%is_undefined_true Hf.
  unfold Option.getOrInsertWith, bind. rewrite isSome_run, Ha. simpl.
  rewrite Hf. apply insert_run.
Qed.

Lemma counting_run calls v h n :
  h !! calls = Some (JNum n) →
  counting calls v h = (Ok v, <[calls:=JNum (n + 1)]> h).
Proof. intros Hc. unfold counting. by rewrite Hc. Qed.

End getOrInsertWith.

(** C9, as the code has it: on a present container [getOrInsertWith(f)]
    returns the existing value and never calls [f]; on an empty container
    it calls [f] exactly once, stores the result in the receiver and returns
    it, and the receiver is then present whenever that result is not
    [undefined].  With the counting callback the counter is unchanged in the
    first case and one higher in the second. *)
Theorem getOrInsertWith_spec (this : loc) (h : heap) :
  (∀ f, present h this →
     Option.getOrInsertWith this f h = (Ok (slot h this), h))
  ∧ (∀ f r h1, absent h this → f h = (Ok r, h1) →
       Option.getOrInsertWith this f h = (Ok r, <[this:=r]> h1)
       ∧ slot (<[this:=r]> h1) this = r
       ∧ (r ≠ JUndefined → present (<[this:=r]> h1) this))
  ∧ (∀ calls n v, h !! calls = Some (JNum n) → calls ≠ this →
       (present h this →
          slot (Option.getOrInsertWith this (counting calls v) h).2 calls
          = JNum n)
       ∧ (absent h this →
            slot (Option.getOrInsertWith this (counting calls v) h).2 calls
            = JNum (n + 1))).
Proof.
  split; [| split].
  - intros f Hp. by apply getOrInsertWith_present.
  - intros f r h1 Ha Hf. split; [by apply getOrInsertWith_absent |].
    split; [apply slot_insert_eq |].
    intros Hr. apply present_iff. by rewrite slot_insert_eq.
  - intros calls n v Hcalls Hne. split.
    + intros Hp. rewrite (getOrInsertWith_present _ _ _ Hp). simpl.
      unfold slot. by rewrite Hcalls.
    + intros Ha.
      rewrite (getOrInsertWith_absent _ _ _ _ _ Ha
                 (counting_run _ v _ _ Hcalls)).
      simpl. rewrite slot_insert_ne by done. apply slot_insert_eq.
Qed.

Lemma getOrInsertWith_spec_witness :
  Option.getOrInsertWith 1 (counting 2 (JNum 9))
    {[1%positive := JNum 5; 2%positive := JNum 0]}
    = (Ok (JNum 5), {[1%positive := JNum 5; 2%positive := JNum 0]})
  ∧ slot (Option.getOrInsertWith 1 (counting 2 (JNum 9))
            {[1%positive := JUndefined; 2%positive := JNum 0]}).2 2
    = JNum 1.
Proof.
  split.
  - destruct (getOrInsertWith_spec 1
                {[1%positive := JNum 5; 2%positive := JNum 0]})
      as (Hpresent & _).
    apply Hpresent. vm_compute. reflexivity.
  - destruct (getOrInsertWith_spec 1
                {[1%positive := JUndefined; 2%positive := JNum 0]})
      as (_ & _ & Hcount).
    apply (Hcount 2%positive 0%Z (JNum 9)).
    + vm_compute. reflexivity.
    + discriminate.
    + vm_compute. reflexivity.
Defined.

(** C9 as stated fails when [f] returns [undefined]: on an empty container
    [getOrInsertWith(() => undefined)] returns [undefined] and leaves the
    container empty. *)
Lemma getOrInsertWith_undefined :
  result (o ←' Option.none ;;
          Option.getOrInsertWith o (ret JUndefined) ;;'
          Option.isSome o) ∅ = Ok false.
Proof. vm_compute. reflexivity. Qed.

(** ** The sentinel *)

(** C10: presence is the test of the slot against [undefined].  [isNone()]
    holds exactly when the slot is [undefined]; [some(undefined)] is the
    same computation as [none()], so whatever is done next with the
    container gives the same outcome and store; and a method that stores
    [undefined] ([insert], [replace], [map] or [getOrInsertWith] with a
    function returning it) yields an empty container. *)
Theorem undefined_is_absence (o : loc) (h : heap) :
  (absent h o ↔ slot h o = JUndefined)
  ∧ (present h o ↔ slot h o ≠ JUndefined)
  ∧ Option.isNone o h = (Ok (is_undefined (slot h o)), h)
  ∧ Option.some JUndefined = Option.none
  ∧ (∀ A (k : loc → M A),
       (x ←' Option.some JUndefined ;; k x) h = (x ←' Option.none ;; k x) h)
  ∧ (∃ x h', Option.some JUndefined h = (Ok x, h') ∧ absent h' x)
  ∧ (∃ h', Option.insert o JUndefined h = (Ok JUndefined, h') ∧ absent h' o)
  ∧ (∃ x h', Option.replace o JUndefined h = (Ok x, h') ∧ absent h' o)
  ∧ (∀ f h1, present h o → f (slot h o) h = (Ok JUndefined, h1) →
       ∃ x h', Option.map o f h = (Ok x, h') ∧ absent h' x)
  ∧ (∀ f h1, absent h o → f h = (Ok JUndefined, h1) →
       ∃ h', Option.getOrInsertWith o f h = (Ok JUndefined, h')
             ∧ absent h' o).
Proof.
  split; [apply absent_iff |]. split; [apply present_iff |].
  split; [apply isNone_run |]. split; [reflexivity |].
  split; [reflexivity |].
  split; [eexists _, _; split; [apply some_run | apply absent_iff, slot_insert_eq] |].
  split; [eexists; split; [apply insert_run | apply absent_iff, slot_insert_eq] |].
  split; [eexists _, _; split; [apply exchange_run | apply absent_iff, slot_insert_eq] |].
  split.
  - intros f h1 Hp Hf. eexists _, _. split; [by eapply map_present |].
    apply absent_iff, slot_insert_eq.
  - intros f h1 Ha Hf. eexists. split; [by eapply getOrInsertWith_absent |].
    apply absent_iff, slot_insert_eq.
Qed.

Lemma undefined_is_absence_witness :
  (∃ x h', Option.map 1 (pure (λ _, JUndefined)) {[1%positive := JNum 3]}
           = (Ok x, h') ∧ absent h' x)
  ∧ (∃ h', Option.getOrInsertWith 1 (ret JUndefined) ∅ = (Ok JUndefined, h')
           ∧ absent h' 1).
Proof.
  split.
  - pose proof (undefined_is_absence 1 {[1%positive := JNum 3]}) as Hall.
    repeat (destruct Hall as [? Hall]).
    match goal with
    | Hmap : ∀ f h1, present _ _ → _ → ∃ x h', Option.map _ f _ = _ ∧ _ |- _ =>
        apply (Hmap (pure (λ _, JUndefined)) {[1%positive := JNum 3]})
    end.
    + vm_compute. reflexivity.
    + reflexivity.
  - pose proof (undefined_is_absence 1 ∅) as Hall.
    repeat (destruct Hall as [? Hall]).
    apply (Hall (ret JUndefined) ∅).
    + vm_compute. reflexivity.
    + reflexivity.
Defined.

(** * Further properties of the class *)

(** Runs a method on a receiver whose state is known: the methods are
    unfolded to the primitives and the tests on the slot are decided from
    the hypotheses. *)
Ltac known_state :=
  repeat match goal with
    | H : present _ _ |- _ => apply present_iff, is_undefined_false in H
    | H : absent _ _ |- _ => apply absent_iff, is_undefined_true in H
    end.

Ltac run_methods :=
  unfold result, observe, Option.unwrap, Option.expect; unfold_methods;
  unfold bind, read, ret, write, alloc, throw, pure; simpl;
  repeat match goal with
    | H : is_undefined _ = _ |- _ => rewrite H; simpl
    end.

(** ** Combination: [zip], [and], [or], [orElse] *)

(** X1: [zip] of two present containers returns a new present container
    holding the pair of their values, and of any other two a new empty
    container; in both cases the result is an object that did not exist
    before and nothing else in the store changes. *)
Theorem zip_spec (this other : loc) (h : heap) :
  ∃ o h', Option.zip this other h = (Ok o, h')
          ∧ h !! o = None
          ∧ h' = <[o:=slot h' o]> h
          ∧ (present h this → present h other →
               present h' o ∧ slot h' o = JArr [slot h this; slot h other])
          ∧ (absent h this ∨ absent h other → absent h' o).
Proof.
  destruct (is_undefined (slot h this)) eqn:Ethis;
    [| destruct (is_undefined (slot h other)) eqn:Eother].
  - exists (fresh (dom h)), (<[fresh (dom h):=JUndefined]> h).
    split; [by run_methods |]. split; [apply fresh_unallocated |].
    rewrite slot_insert_eq. split; [done |]. split.
    + intros Hp. known_state. congruence.
    + intros _. apply absent_iff, slot_insert_eq.
  - exists (fresh (dom h)), (<[fresh (dom h):=JUndefined]> h).
    split; [by run_methods |]. split; [apply fresh_unallocated |].
    rewrite slot_insert_eq. split; [done |]. split.
    + intros _ Hp. known_state. congruence.
    + intros _. apply absent_iff, slot_insert_eq.
  - exists (fresh (dom h)),
      (<[fresh (dom h):=JArr [slot h this; slot h other]]> h).
    split; [by run_methods |]. split; [apply fresh_unallocated |].
    rewrite slot_insert_eq. split; [done |]. split.
    + intros _ _. split; [| done]. apply present_iff.
      by rewrite slot_insert_eq.
    + intros [Ha|Ha]; known_state; congruence.
Qed.

Lemma zip_spec_witness :
  ∃ o h', Option.zip 1 2 {[1%positive := JNum 1; 2%positive := JStr "a"]}
          = (Ok o, h')
          ∧ present h' o ∧ slot h' o = JArr [JNum 1; JStr "a"].
Proof.
  destruct (zip_spec 1 2 {[1%positive := JNum 1; 2%positive := JStr "a"]})
    as (o & h' & Hrun & _ & _ & Hboth & _).
  exists o, h'. split; [exact Hrun |].
  apply Hboth; vm_compute; reflexivity.
Defined.

(** X2: [and] returns its argument itself, store untouched, when the
    receiver is present; on an empty receiver it returns a new empty
    container (never the argument, even when that one is empty too). *)
Theorem and_spec (this optb : loc) (h : heap) :
  (present h this → Option.and this optb h = (Ok optb, h))
  ∧ (absent h this →
       ∃ o, Option.and this optb h = (Ok o, <[o:=JUndefined]> h)
            ∧ h !! o = None
            ∧ (is_Some (h !! optb) → o ≠ optb)).
Proof.
  split.
  - intros Hp. known_state. by run_methods.
  - intros Ha. known_state. exists (fresh (dom h)).
    split; [by run_methods |]. split; [apply fresh_unallocated |].
    apply fresh_ne.
Qed.

Lemma and_spec_witness :
  Option.and 1 2 {[1%positive := JNum 1; 2%positive := JUndefined]}
  = (Ok 2%positive, {[1%positive := JNum 1; 2%positive := JUndefined]})
  ∧ ∃ o, Option.and 2 1 {[1%positive := JNum 1; 2%positive := JUndefined]}
         = (Ok o, <[o:=JUndefined]>
                    {[1%positive := JNum 1; 2%positive := JUndefined]})
         ∧ o ≠ 1%positive.
Proof.
  split.
  - destruct (and_spec 1 2 {[1%positive := JNum 1; 2%positive := JUndefined]})
      as [Hpresent _].
    apply Hpresent. vm_compute. reflexivity.
  - destruct (and_spec 2 1 {[1%positive := JNum 1; 2%positive := JUndefined]})
      as [_ Habsent].
    destruct Habsent as (o & Hrun & _ & Hne); [vm_compute; reflexivity |].
    exists o. split; [exact Hrun |]. apply Hne. vm_compute. eexists. reflexivity.
Defined.

(** X3: [or] and [orElse] return the receiver itself when it is present,
    without calling the fallback; on an empty receiver [or] returns its
    argument itself and [orElse(f)] is the call [f()].  [or] never
    allocates and never changes the store. *)
Theorem or_orElse_spec (this optb : loc) (f : M loc) (h : heap) :
  (present h this →
     Option.or this optb h = (Ok this, h)
     ∧ Option.orElse this f h = (Ok this, h))
  ∧ (absent h this →
       Option.or this optb h = (Ok optb, h)
       ∧ Option.orElse this f h = f h)
  ∧ (Option.or this optb h).2 = h.
Proof.
  destruct (is_undefined (slot h this)) eqn:Ethis;
    (split; [| split]); try (intros H; known_state; try congruence);
    by run_methods.
Qed.

Lemma or_orElse_spec_witness :
  Option.orElse 1 (Option.some (JNum 7)) {[1%positive := JNum 1]}
  = (Ok 1%positive, {[1%positive := JNum 1]})
  ∧ Option.or 1 2 {[1%positive := JUndefined; 2%positive := JNum 2]}
    = (Ok 2%positive, {[1%positive := JUndefined; 2%positive := JNum 2]}).
Proof.
  split.
  - destruct (or_orElse_spec 1 1 (Option.some (JNum 7))
                {[1%positive := JNum 1]}) as [Hpresent _].
    apply Hpresent. vm_compute. reflexivity.
  - destruct (or_orElse_spec 1 2 Option.none
                {[1%positive := JUndefined; 2%positive := JNum 2]})
      as (_ & Habsent & _).
    apply Habsent. vm_compute. reflexivity.
Defined.

(** ** Tests and filters: [isSomeAnd], [filter], [asSlice] *)

(** X4: [filter] with a side-effect-free predicate returns the receiver
    itself, store untouched, when the receiver is present and the predicate
    holds of its value, and a new empty container otherwise.  The kept
    result is an alias, not a copy: a value inserted through it is the
    value the receiver then holds. *)
Theorem filter_spec (this : loc) (p : JsValue → bool) (h : heap) :
  (present h this → p (slot h this) = true →
     Option.filter this (pure p) h = (Ok this, h)
     ∧ ∀ w, result (r ←' Option.filter this (pure p) ;;
                    Option.insert r w ;;' read this) h = Ok w)
  ∧ (absent h this ∨ p (slot h this) = false →
       ∃ o, Option.filter this (pure p) h = (Ok o, <[o:=JUndefined]> h)
            ∧ h !! o = None).
Proof.
  split.
  - intros Hp Htrue. known_state. split.
    + run_methods. by rewrite Htrue.
    + intros w. run_methods. rewrite Htrue. simpl. by rewrite slot_insert_eq.
  - intros Hno. exists (fresh (dom h)). split; [| apply fresh_unallocated].
    destruct (is_undefined (slot h this)) eqn:Ethis; [by run_methods |].
    destruct Hno as [Ha|Hfalse]; [known_state; congruence |].
    run_methods. by rewrite Hfalse.
Qed.

Lemma filter_spec_witness :
  Option.filter 1 (pure (λ v, negb (is_undefined v))) {[1%positive := JNum 4]}
  = (Ok 1%positive, {[1%positive := JNum 4]})
  ∧ ∃ o, Option.filter 1 (pure (λ _, false)) {[1%positive := JNum 4]}
         = (Ok o, <[o:=JUndefined]> {[1%positive := JNum 4]})
         ∧ ({[1%positive := JNum 4]} : gmap positive JsValue) !! o = None.
Proof.
  split.
  - destruct (filter_spec 1 (λ v, negb (is_undefined v))
                {[1%positive := JNum 4]}) as [Hkeep _].
    apply Hkeep; vm_compute; reflexivity.
  - destruct (filter_spec 1 (λ _, false) {[1%positive := JNum 4]})
      as [_ Hdrop].
    apply Hdrop. right. reflexivity.
Defined.

(** X5: [isSomeAnd] answers false on an empty receiver without calling the
    predicate, and on a present one it is the call of the predicate on the
    value; for a side-effect-free predicate, [filter(p).isSome()] and
    [isSomeAnd(p)] give the same answer. *)
Theorem isSomeAnd_spec (this : loc) (h : heap) :
  (∀ p, absent h this → Option.isSomeAnd this p h = (Ok false, h))
  ∧ (∀ p, present h this →
       Option.isSomeAnd this p h = p (slot h this) h)
  ∧ (∀ p : JsValue → bool,
       result (r ←' Option.filter this (pure p) ;; Option.isSome r) h
       = result (Option.isSomeAnd this (pure p)) h).
Proof.
  split; [| split].
  - intros p Ha. known_state. by run_methods.
  - intros p Hp. known_state. by run_methods.
  - intros p. destruct (is_undefined (slot h this)) eqn:Ethis.
    + run_methods. by rewrite slot_insert_eq.
    + run_methods. destruct (p (slot h this)); simpl.
      * by rewrite Ethis.
      * by rewrite slot_insert_eq.
Qed.

Lemma isSomeAnd_spec_witness :
  Option.isSomeAnd 1 (λ _, throw (Error "never called")) {[1%positive := JUndefined]}
  = (Ok false, {[1%positive := JUndefined]})
  ∧ Option.isSomeAnd 1 (pure (λ v, negb (is_undefined v))) {[1%positive := JNull]}
    = (Ok true, {[1%positive := JNull]}).
Proof.
  split.
  - destruct (isSomeAnd_spec 1 {[1%positive := JUndefined]}) as [Hempty _].
    apply Hempty. vm_compute. reflexivity.
  - destruct (isSomeAnd_spec 1 {[1%positive := JNull]}) as (_ & Hcall & _).
    apply (Hcall (pure (λ v, negb (is_undefined v)))). vm_compute. reflexivity.
Defined.

(** X6: [asSlice] leaves the store untouched and returns the one-element
    array of the value when the receiver is present and the empty array
    otherwise; the array never contains [undefined] and has at most one
    element. *)
Theorem asSlice_spec (this : loc) (h : heap) :
  ∃ l, Option.asSlice this h = (Ok l, h)
       ∧ length l ≤ 1
       ∧ Forall (λ v, v ≠ JUndefined) l
       ∧ (present h this ↔ l = [slot h this])
       ∧ (absent h this ↔ l = []).
Proof.
  destruct (is_undefined (slot h this)) eqn:Ethis.
  - exists []. split; [by run_methods |]. split; [simpl; lia |].
    split; [constructor |]. split.
    + split; [intros Hp; known_state; congruence | done].
    + split; [done |]. intros _. by apply absent_iff, is_undefined_true.
  - exists [slot h this]. split; [by run_methods |]. split; [simpl; lia |].
    split; [by repeat constructor; apply is_undefined_false |]. split.
    + split; [done |]. intros _. by apply present_iff, is_undefined_false.
    + split; [intros Ha; known_state; congruence | done].
Qed.

Lemma asSlice_spec_witness :
  ∃ l, Option.asSlice 1 {[1%positive := JNum 3]} = (Ok l, {[1%positive := JNum 3]})
       ∧ l = [JNum 3].
Proof.
  destruct (asSlice_spec 1 {[1%positive := JNum 3]})
    as (l & Hrun & _ & _ & Hpresent & _).
  exists l. split; [exact Hrun |].
  apply Hpresent. vm_compute. reflexivity.
Defined.

(** ** Extraction with a fallback: [unwrapOr], [unwrapOrElse] *)

(** X7: [unwrapOr] never changes the store; it returns the value of a
    present receiver and the fallback on an empty one, so with a fallback
    other than [undefined] the result is never [undefined].
    [unwrapOrElse(f)] returns the value of a present receiver without
    calling [f], and is the call [f()] on an empty one. *)
Theorem unwrapOr_spec (this : loc) (d : JsValue) (h : heap) :
  (present h this →
     Option.unwrapOr this d h = (Ok (slot h this), h)
     ∧ ∀ f, Option.unwrapOrElse this f h = (Ok (slot h this), h))
  ∧ (absent h this →
       Option.unwrapOr this d h = (Ok d, h)
       ∧ ∀ f, Option.unwrapOrElse this f h = f h)
  ∧ (d ≠ JUndefined →
       ∃ v, Option.unwrapOr this d h = (Ok v, h) ∧ v ≠ JUndefined).
Proof.
  split; [| split].
  - intros Hp. known_state. split; [| intros f]; by run_methods.
  - intros Ha. known_state. split; [| intros f]; by run_methods.
  - intros Hd. destruct (is_undefined (slot h this)) eqn:Ethis.
    + exists d. split; [by run_methods | done].
    + exists (slot h this). split; [by run_methods |].
      by apply is_undefined_false.
Qed.

Lemma unwrapOr_spec_witness :
  Option.unwrapOr 1 (JNum 0) {[1%positive := JNum 8]}
  = (Ok (JNum 8), {[1%positive := JNum 8]})
  ∧ Option.unwrapOr 1 (JNum 0) {[1%positive := JUndefined]}
    = (Ok (JNum 0), {[1%positive := JUndefined]}).
Proof.
  split.
  - destruct (unwrapOr_spec 1 (JNum 0) {[1%positive := JNum 8]})
      as [Hpresent _].
    apply Hpresent. vm_compute. reflexivity.
  - destruct (unwrapOr_spec 1 (JNum 0) {[1%positive := JUndefined]})
      as (_ & Habsent & _).
    apply Habsent. vm_compute. reflexivity.
Defined.

(** ** Callbacks: [inspect], [mapOrElse], [mapOr] *)

(** X8: [inspect(f)] returns the receiver itself.  On a present receiver
    it calls [f] once on the value and drops what [f] returns: the store is
    the one [f] leaves, and an exception of [f] is the exception of
    [inspect].  On an empty receiver [f] is not called and the store is
    untouched. *)
Theorem inspect_spec {R} (this : loc) (f : JsValue → M R) (h : heap) :
  (absent h this → Option.inspect this f h = (Ok this, h))
  ∧ (∀ r h1, present h this → f (slot h this) h = (Ok r, h1) →
       Option.inspect this f h = (Ok this, h1))
  ∧ (∀ e h1, present h this → f (slot h this) h = (Throw e, h1) →
       Option.inspect this f h = (Throw e, h1)).
Proof.
  split; [| split].
  - intros Ha. known_state. by run_methods.
  - intros r h1 Hp Hf. known_state. run_methods. by rewrite Hf.
  - intros e h1 Hp Hf. known_state. run_methods. by rewrite Hf.
Qed.

Lemma inspect_spec_witness :
  Option.inspect 1 (λ v, counting 2 v)
    {[1%positive := JStr "x"; 2%positive := JNum 0]}
  = (Ok 1%positive, {[1%positive := JStr "x"; 2%positive := JNum 1]})
  ∧ Option.inspect 1 (λ v, counting 2 v)
      {[1%positive := JUndefined; 2%positive := JNum 0]}
    = (Ok 1%positive, {[1%positive := JUndefined; 2%positive := JNum 0]}).
Proof.
  split.
  - destruct (inspect_spec 1 (λ v, counting 2 v)
                {[1%positive := JStr "x"; 2%positive := JNum 0]})
      as (_ & Hcall & _).
    apply (Hcall (JStr "x")); vm_compute; reflexivity.
  - destruct (inspect_spec 1 (λ v, counting 2 v)
                {[1%positive := JUndefined; 2%positive := JNum 0]})
      as (Hempty & _).
    apply Hempty. vm_compute. reflexivity.
Defined.

(** X9: [mapOrElse(fallback, f)] runs exactly one of its two functions:
    on a present receiver it is the call of [f] on the value, on an empty
    one the call of [fallback]; with a counter in each function, one
    counter moves by one and the other stays.  [mapOr(d, f)] is [f] on the
    value, or [d] with the store untouched. *)
Theorem mapOrElse_spec (this : loc) (h : heap) :
  (∀ U (d : M U) (f : JsValue → M U), present h this →
     Option.mapOrElse this d f h = f (slot h this) h)
  ∧ (∀ U (d : M U) (f : JsValue → M U), absent h this →
       Option.mapOrElse this d f h = d h)
  ∧ (∀ U (d : U) (f : JsValue → M U), present h this →
       Option.mapOr this d f h = f (slot h this) h)
  ∧ (∀ U (d : U) (f : JsValue → M U), absent h this →
       Option.mapOr this d f h = (Ok d, h))
  ∧ (∀ c1 c2 n1 n2 a b,
       h !! c1 = Some (JNum n1) → h !! c2 = Some (JNum n2) → c1 ≠ c2 →
       let h' := (Option.mapOrElse this (counting c1 a)
                    (λ _, counting c2 b) h).2 in
       (present h this → slot h' c1 = JNum n1 ∧ slot h' c2 = JNum (n2 + 1))
       ∧ (absent h this → slot h' c1 = JNum (n1 + 1) ∧ slot h' c2 = JNum n2)).
Proof.
  repeat apply conj.
  - intros U d f Hp. known_state. by run_methods.
  - intros U d f Ha. known_state. by run_methods.
  - intros U d f Hp. known_state. by run_methods.
  - intros U d f Ha. known_state. by run_methods.
  - intros c1 c2 n1 n2 a b H1 H2 Hne h'. split.
    + intros Hp. known_state. unfold h'. run_methods.
      rewrite (counting_run _ _ _ _ H2). simpl. split.
      * rewrite slot_insert_ne by congruence. unfold slot. by rewrite H1.
      * apply slot_insert_eq.
    + intros Ha. known_state. unfold h'. run_methods.
      rewrite (counting_run _ _ _ _ H1). simpl. split.
      * apply slot_insert_eq.
      * rewrite slot_insert_ne by congruence. unfold slot. by rewrite H2.
Qed.

Lemma mapOrElse_spec_witness :
  slot (Option.mapOrElse 1 (counting 2 JNull) (λ _, counting 3 JNull)
          {[1%positive := JNum 5; 2%positive := JNum 0; 3%positive := JNum 0]}).2
       2 = JNum 0
  ∧ slot (Option.mapOrElse 1 (counting 2 JNull) (λ _, counting 3 JNull)
            {[1%positive := JNum 5; 2%positive := JNum 0; 3%positive := JNum 0]}).2
         3 = JNum 1.
Proof.
  pose proof (mapOrElse_spec 1
    {[1%positive := JNum 5; 2%positive := JNum 0; 3%positive := JNum 0]})
    as Hall.
  repeat (destruct Hall as [_ Hall]).
  apply (Hall 2%positive 3%positive 0%Z 0%Z JNull JNull).
  - vm_compute. reflexivity.
  - vm_compute. reflexivity.
  - discriminate.
  - vm_compute. reflexivity.
Defined.

(** ** Mutation: [getOrInsert] and the exchange behind [take] and [replace] *)

(** X10: [getOrInsert(v)] returns what the receiver holds afterwards.  A
    present receiver keeps its value and the store is untouched; an empty
    one receives [v].  With [v] other than [undefined] the receiver is
    present afterwards, and a second [getOrInsert] with any other value
    returns the same result and changes nothing. *)
Theorem getOrInsert_spec (this : loc) (v : JsValue) (h : heap) :
  ∃ r h', Option.getOrInsert this v h = (Ok r, h')
          ∧ slot h' this = r
          ∧ (present h this → r = slot h this ∧ h' = h)
          ∧ (absent h this → r = v ∧ h' = <[this:=v]> h)
          ∧ (v ≠ JUndefined →
               present h' this
               ∧ ∀ w, Option.getOrInsert this w h' = (Ok r, h')).
Proof.
  destruct (is_undefined (slot h this)) eqn:Ethis.
  - exists v, (<[this:=v]> h). split.
    { run_methods. by rewrite slot_insert_eq. }
    split; [apply slot_insert_eq |].
    split; [intros Hp; known_state; congruence |].
    split; [done |].
    intros Hv%is_undefined_false. split.
    + apply present_iff, is_undefined_false. by rewrite slot_insert_eq.
    + intros w. run_methods. rewrite slot_insert_eq, Hv. simpl.
      by rewrite slot_insert_eq.
  - exists (slot h this), h. split; [by run_methods |].
    split; [done |]. split; [done |].
    split; [intros Ha; known_state; congruence |].
    intros _. split; [by apply present_iff, is_undefined_false |].
    intros w. by run_methods.
Qed.

Lemma getOrInsert_spec_witness :
  ∃ r h', Option.getOrInsert 1 (JNum 2) {[1%positive := JUndefined]} = (Ok r, h')
          ∧ r = JNum 2
          ∧ present h' 1
          ∧ Option.getOrInsert 1 (JNum 3) h' = (Ok r, h').
Proof.
  destruct (getOrInsert_spec 1 (JNum 2) {[1%positive := JUndefined]})
    as (r & h' & Hrun & _ & _ & Habsent & Hdefined).
  exists r, h'. split; [exact Hrun |].
  split; [apply Habsent; vm_compute; reflexivity |].
  destruct Hdefined as [Hp Hagain]; [discriminate |].
  split; [exact Hp | apply Hagain].
Defined.

(** X11: the exchange is undone by a second one.  On a live receiver,
    [replace(v2)] followed by [replace] with the value of the container
    it returned gives the receiver its first value back and returns a
    container holding [v2]; and [take()] followed by [insert] of the taken
    value restores the receiver. *)
Theorem exchange_round_trip (this : loc) (v2 : JsValue) (h : heap) :
  is_Some (h !! this) →
  (∃ o h1, Option.replace this v2 h = (Ok o, h1)
           ∧ ∃ o' h2, Option.replace this (slot h1 o) h1 = (Ok o', h2)
                      ∧ slot h2 this = slot h this
                      ∧ slot h2 o' = v2
                      ∧ slot h2 o = slot h this)
  ∧ (∃ o h1, Option.take this h = (Ok o, h1)
             ∧ ∃ h2, Option.insert this (slot h1 o) h1 = (Ok (slot h this), h2)
                     ∧ slot h2 this = slot h this).
Proof.
  intros Hlive. split.
  - eexists _, _. split; [apply exchange_run |].
    set (o := fresh (dom h)).
    set (h1 := <[this:=v2]> (<[o:=slot h this]> h)).
    destruct (exchange_slots this v2 h) as [Hnew Hold].
    destruct (Hold Hlive) as [Hne Ho]. fold o h1 in Hnew, Hne, Ho.
    eexists _, _. split; [apply exchange_run |].
    set (o' := fresh (dom h1)).
    assert (is_Some (h1 !! this)) as Hlive1.
    { unfold h1. rewrite lookup_insert_eq. eauto. }
    assert (is_Some (h1 !! o)) as Hliveo.
    { unfold h1. rewrite lookup_insert_ne by done. rewrite lookup_insert_eq.
      eauto. }
    assert (o' ≠ this) as Hne1 by by apply fresh_ne.
    assert (o' ≠ o) as Hne2 by by apply fresh_ne.
    rewrite Ho, Hnew. repeat split.
    + apply slot_insert_eq.
    + rewrite slot_insert_ne by done. apply slot_insert_eq.
    + rewrite slot_insert_ne by done. by rewrite slot_insert_ne.
  - eexists _, _. split; [apply exchange_run |].
    destruct (exchange_slots this JUndefined h) as [_ Hold].
    destruct (Hold Hlive) as [_ Ho]. rewrite Ho.
    eexists. split; [apply insert_run | apply slot_insert_eq].
Qed.

Lemma exchange_round_trip_witness :
  ∃ o h1, Option.replace 1 (JStr "new") {[1%positive := JStr "old"]} = (Ok o, h1)
          ∧ ∃ o' h2, Option.replace 1 (slot h1 o) h1 = (Ok o', h2)
                     ∧ slot h2 1 = JStr "old"
                     ∧ slot h2 o' = JStr "new".
Proof.
  destruct (exchange_round_trip 1 (JStr "new") {[1%positive := JStr "old"]})
    as [(o & h1 & Hrun & o' & h2 & Hrun' & Hback & Hnew & _) _].
  { vm_compute. eexists. reflexivity. }
  exists o, h1. split; [exact Hrun |].
  exists o', h2. split; [exact Hrun' |]. split; [exact Hback | exact Hnew].
Defined.

(** ** How the methods compose *)

(** X12: the containers returned by [map], [zip] and [replace] are new
    objects: a value inserted into the result leaves a live receiver
    holding what it held ([replace]: what it was given). *)
Theorem results_are_copies (this other : loc) (f : JsValue → JsValue)
    (v w : JsValue) (h : heap) :
  is_Some (h !! this) →
  result (r ←' Option.map this (pure f) ;;
          Option.insert r w ;;' read this) h = Ok (slot h this)
  ∧ result (r ←' Option.zip this other ;;
            Option.insert r w ;;' read this) h = Ok (slot h this)
  ∧ result (r ←' Option.replace this v ;;
            Option.insert r w ;;' read this) h = Ok v.
Proof.
  intros Hlive. pose proof (fresh_ne h this Hlive) as Hne.
  repeat apply conj.
  - destruct (is_undefined (slot h this)) eqn:Ethis; run_methods;
      by rewrite slot_insert_ne, slot_insert_ne.
  - destruct (is_undefined (slot h this)) eqn:Ethis;
      [| destruct (is_undefined (slot h other)) eqn:Eother]; run_methods;
      by rewrite slot_insert_ne, slot_insert_ne.
  - run_methods. rewrite slot_insert_ne by done. by rewrite slot_insert_eq.
Qed.

Lemma results_are_copies_witness :
  result (r ←' Option.map 1 (pure (λ x, JArr [x])) ;;
          Option.insert r JNull ;;' read 1) {[1%positive := JNum 6]}
  = Ok (JNum 6).
Proof.
  destruct (results_are_copies 1 1 (λ x, JArr [x]) JNull JNull
              {[1%positive := JNum 6]}) as [Hmap _].
  - vm_compute. eexists. reflexivity.
  - exact Hmap.
Defined.

(** X13: [andThen] has [some] as right identity and is associative, for
    every container and all callbacks, effects and exceptions included:
    [c.andThen(Option.some)] has the state and value of [c], and
    [c.andThen(f).andThen(g)] gives what [c.andThen(x => f(x).andThen(g))]
    gives. *)
Theorem andThen_monad_laws (c : loc) (f g : JsValue → M loc) (h : heap) :
  result (r ←' Option.andThen c Option.some ;; observe r) h
  = result (observe c) h
  ∧ result (o1 ←' Option.andThen c f ;;
            o2 ←' Option.andThen o1 g ;;
            observe o2) h
    = result (o ←' Option.andThen c (λ x, o1 ←' f x ;; Option.andThen o1 g) ;;
              observe o) h.
Proof.
  split.
  - destruct (is_undefined (slot h c)) eqn:Ec; run_methods.
    + rewrite slot_insert_eq. apply is_undefined_true in Ec. by rewrite Ec.
    + by rewrite slot_insert_eq, Ec.
  - destruct (is_undefined (slot h c)) eqn:Ec.
    + run_methods. rewrite slot_insert_eq. simpl. by rewrite !slot_insert_eq.
    + assert (∀ k, Option.andThen c k h = k (slot h c) h) as Hcall
        by (intros k; by run_methods).
      unfold result, bind. rewrite !Hcall.
      by destruct (f (slot h c) h) as [[o1|e] h1].
Qed.

(** X14: [xor] is commutative in what a caller sees: [a.xor(b)] and
    [b.xor(a)] have the same state and value. *)
Theorem xor_commutative (a b : loc) (h : heap) :
  result (r ←' Option.xor a b ;; observe r) h
  = result (r ←' Option.xor b a ;; observe r) h.
Proof.
  unfold result, bind. rewrite !xor_run.
  destruct (is_undefined (slot h a)) eqn:Ea,
    (is_undefined (slot h b)) eqn:Eb; simpl;
    rewrite ?observe_run, ?none_run; simpl;
    rewrite ?slot_insert_eq, ?Ea, ?Eb; try done.
  apply is_undefined_true in Ea, Eb. by rewrite Ea, Eb.
Qed.

(** X15: the state of a combination is the Boolean combination of the
    states: [and] and [zip] give a present container exactly when both
    operands are present, [or] when at least one is, [xor] when exactly one
    is. *)
Theorem presence_algebra (a b : loc) (h : heap) :
  ∃ pa pb, result (Option.isSome a) h = Ok pa
           ∧ result (Option.isSome b) h = Ok pb
           ∧ result (r ←' Option.and a b ;; Option.isSome r) h = Ok (pa && pb)
           ∧ result (r ←' Option.zip a b ;; Option.isSome r) h = Ok (pa && pb)
           ∧ result (r ←' Option.or a b ;; Option.isSome r) h = Ok (pa || pb)
           ∧ result (r ←' Option.xor a b ;; Option.isSome r) h = Ok (xorb pa pb).
Proof.
  exists (negb (is_undefined (slot h a))), (negb (is_undefined (slot h b))).
  split; [done |]. split; [done |].
  destruct (is_undefined (slot h a)) eqn:Ea,
    (is_undefined (slot h b)) eqn:Eb;
    repeat split; run_methods; by rewrite ?slot_insert_eq, ?Ea, ?Eb.
Qed.

(** X16: mapping and then extracting with a fallback is [mapOr], as long
    as the function does not return [undefined] on the value of a present
    receiver: [c.map(f).unwrapOr(d)] returns what [c.mapOr(d, f)] returns.
    Without a function, [c.mapOr(d, x => x)] is [c.unwrapOr(d)]. *)
Theorem map_unwrapOr_mapOr (c : loc) (f : JsValue → JsValue) (d : JsValue)
    (h : heap) :
  (present h c → f (slot h c) ≠ JUndefined) →
  result (r ←' Option.map c (pure f) ;; Option.unwrapOr r d) h
  = result (Option.mapOr c d (pure f)) h
  ∧ Option.mapOr c d (pure id) h = Option.unwrapOr c d h.
Proof.
  intros Hf. destruct (is_undefined (slot h c)) eqn:Ec.
  - split; run_methods; rewrite ?slot_insert_eq; by simpl.
  - assert (is_undefined (f (slot h c)) = false) as Hfv.
    { apply is_undefined_false, Hf. by apply present_iff, is_undefined_false. }
    split; run_methods; rewrite ?slot_insert_eq, ?Hfv; simpl;
      by rewrite ?slot_insert_eq.
Qed.

Lemma map_unwrapOr_mapOr_witness :
  result (r ←' Option.map 1 (pure (λ x, JArr [x])) ;; Option.unwrapOr r JNull)
    {[1%positive := JNum 2]}
  = result (Option.mapOr 1 JNull (pure (λ x, JArr [x]))) {[1%positive := JNum 2]}.
Proof.
  apply (map_unwrapOr_mapOr 1 (λ x, JArr [x]) JNull {[1%positive := JNum 2]}).
  intros _. discriminate.
Defined.

(** X17: an exception of a callback is the exception of the method, and
    the method adds nothing to what the callback did: [map], [andThen],
    [isSomeAnd] and [filter] allocate no container, and [getOrInsertWith]
    does not write to the receiver. *)
Theorem callback_exception_propagates (this : loc) (e : JsError)
    (h h1 : heap) :
  (∀ f, present h this → f (slot h this) h = (Throw e, h1) →
     Option.map this f h = (Throw e, h1))
  ∧ (∀ f, present h this → f (slot h this) h = (Throw e, h1) →
       Option.andThen this f h = (Throw e, h1))
  ∧ (∀ p, present h this → p (slot h this) h = (Throw e, h1) →
       Option.isSomeAnd this p h = (Throw e, h1)
       ∧ Option.filter this p h = (Throw e, h1))
  ∧ (∀ f, absent h this → f h = (Throw e, h1) →
       Option.getOrInsertWith this f h = (Throw e, h1)
       ∧ Option.unwrapOrElse this f h = (Throw e, h1))
  ∧ (∀ f, absent h this → f h = (Throw e, h1) →
       Option.orElse this f h = (Throw e, h1)).
Proof.
  repeat apply conj; intros f Hstate Hf; known_state; run_methods;
    by rewrite Hf.
Qed.

Lemma callback_exception_propagates_witness :
  Option.map 1 (λ _, Option.unwrap 2)
    {[1%positive := JNum 1; 2%positive := JUndefined]}
  = (Throw (Error "Option is None"),
     {[1%positive := JNum 1; 2%positive := JUndefined]})
  ∧ Option.getOrInsertWith 2 (Option.unwrap 2)
      {[1%positive := JNum 1; 2%positive := JUndefined]}
    = (Throw (Error "Option is None"),
       {[1%positive := JNum 1; 2%positive := JUndefined]}).
Proof.
  pose proof (callback_exception_propagates 1 (Error "Option is None")
    {[1%positive := JNum 1; 2%positive := JUndefined]}
    {[1%positive := JNum 1; 2%positive := JUndefined]}) as [Hmap _].
  pose proof (callback_exception_propagates 2 (Error "Option is None")
    {[1%positive := JNum 1; 2%positive := JUndefined]}
    {[1%positive := JNum 1; 2%positive := JUndefined]})
    as (_ & _ & _ & Hget & _).
  split.
  - apply (Hmap (λ _, Option.unwrap 2)); vm_compute; reflexivity.
  - apply (Hget (Option.unwrap 2)); vm_compute; reflexivity.
Defined.

(** ** What the mutating methods leave alone *)

(** X18: [insert], [getOrInsert], [take] and [replace] write to the
    receiver only: every other live object keeps its slot.
    [getOrInsertWith(f)] changes another object only if [f] does. *)
Theorem mutators_touch_only_receiver (this l : loc) :
  l ≠ this →
  (∀ v, preserves l (Option.insert this v))
  ∧ (∀ v, preserves l (Option.getOrInsert this v))
  ∧ preserves l (Option.take this)
  ∧ (∀ v, preserves l (Option.replace this v))
  ∧ (∀ f, preserves l f → preserves l (Option.getOrInsertWith this f)).
Proof.
  intros Hne.
  assert (∀ v, preserves l (write this v)) as Hwrite.
  { intros v h _. simpl. by apply lookup_insert_ne. }
  repeat apply conj; intros; unfold_methods; auto 30 with frame.
Qed.

Lemma mutators_touch_only_receiver_witness :
  (Option.take 1 {[1%positive := JNum 1; 2%positive := JNum 2]}).2
    !! 2%positive = Some (JNum 2).
Proof.
  destruct (mutators_touch_only_receiver 1 2) as (_ & _ & Htake & _).
  - discriminate.
  - etransitivity;
      [apply (Htake {[1%positive := JNum 1; 2%positive := JNum 2]}) |].
    + vm_compute. eexists. reflexivity.
    + reflexivity.
Defined.

(** ** Laziness *)

(** X19: a callback is called once in the state that needs it and not at
    all in the other.  With a callback that bumps a counter, [map],
    [andThen] and [filter] move the counter by one on a present receiver
    and leave it on an empty one; [unwrapOrElse] and [orElse] leave it on a
    present receiver and move it by one on an empty one. *)
Theorem callbacks_called_once (this calls : loc) (n : Z) (h : heap) :
  h !! calls = Some (JNum n) →
  let after {A} (m : M A) := slot (m h).2 calls in
  let on_value :=
    (after (Option.map this (λ v, counting calls v)),
     after (Option.andThen this (λ v, counting calls v ;;' Option.some v)),
     after (Option.filter this (λ v, counting calls v ;;' ret true))) in
  let on_empty :=
    (after (Option.unwrapOrElse this (counting calls JNull)),
     after (Option.orElse this (counting calls JNull ;;' Option.none))) in
  (present h this →
     on_value = (JNum (n + 1), JNum (n + 1), JNum (n + 1))
     ∧ on_empty = (JNum n, JNum n))
  ∧ (absent h this →
       on_value = (JNum n, JNum n, JNum n)
       ∧ on_empty = (JNum (n + 1), JNum (n + 1))).
Proof.
  intros Hcalls after on_value on_empty.
  assert (slot h calls = JNum n) as Hslot by (unfold slot; by rewrite Hcalls).
  assert (is_Some (h !! calls)) as Hlive by eauto.
  assert (∀ v, slot (<[fresh (dom h):=v]> h) calls = JNum n) as Hnew.
  { intros v. rewrite slot_insert_ne; [done | by apply fresh_ne]. }
  assert (∀ v, slot (<[fresh (dom (<[calls:=JNum (n + 1)]> h)):=v]>
                       (<[calls:=JNum (n + 1)]> h)) calls = JNum (n + 1))
    as Hbumped.
  { intros v. rewrite slot_insert_ne; [apply slot_insert_eq |].
    apply fresh_ne. rewrite lookup_insert_eq. eauto. }
  split; intros Hstate; known_state;
    unfold on_value, on_empty, after; run_methods;
    unfold counting; rewrite Hcalls; simpl;
    by rewrite ?Hnew, ?Hbumped, ?slot_insert_eq, ?Hslot.
Qed.

Lemma callbacks_called_once_witness :
  slot (Option.map 1 (λ v, counting 2 v)
          {[1%positive := JNum 5; 2%positive := JNum 0]}).2 2 = JNum 1
  ∧ slot (Option.orElse 1 (counting 2 JNull ;;' Option.none)
            {[1%positive := JNum 5; 2%positive := JNum 0]}).2 2 = JNum 0.
Proof.
  destruct (callbacks_called_once 1 2 0
              {[1%positive := JNum 5; 2%positive := JNum 0]})
    as [Hpresent _].
  - vm_compute. reflexivity.
  - destruct Hpresent as [Hvalue Hempty]; [vm_compute; reflexivity |].
    split.
    + exact (f_equal (λ t, t.1.1) Hvalue).
    + exact (f_equal snd Hempty).
Defined.
